(** * VCFShark: parameters, registering queue and compressed-file constants

    A shallow embedding of three pieces of the VCFShark sources:
    - the structure [CParams]: default construction and the 5-byte parameter
      blob written by [store_params] and read back by [load_params];
    - the class template [CRegisteringQueue] of queue.h: the
      producer/consumer queue as a sequential state machine (every method
      body runs under the queue's mutex);
    - the constants declared in the class [CCompressedFile]: buffer
      thresholds, the text-preprocessing marker and the context type flags.

    Fixed-width C++ integers are integers of [Z] with the wrap-around written
    out where the source converts or overflows. *)

From Stdlib Require Import String Ascii ZArith List Lia Bool.
Import ListNotations.
Local Open Scope Z_scope.

(** ** Fixed-width integers *)

Definition to_uint8 (x : Z) : Z := x mod 2 ^ 8.
Definition to_uint32 (x : Z) : Z := x mod 2 ^ 32.
Definition to_uint64 (x : Z) : Z := x mod 2 ^ 64.

Definition is_uint8 (x : Z) : Prop := 0 <= x < 2 ^ 8.
Definition is_uint32 (x : Z) : Prop := 0 <= x < 2 ^ 32.
Definition is_uint64 (x : Z) : Prop := 0 <= x < 2 ^ 64.

(** Smallest value of a 32-bit [int]. *)
Definition INT_MIN : Z := - 2 ^ 31.
Definition INT_MAX : Z := 2 ^ 31 - 1.

(** The code of a character literal such as ['G']. *)
Definition char_code (c : ascii) : Z := Z.of_N (N_of_ascii c).

(** [std::vector::push_back] and [operator[]] on a vector of bytes.  Reading
    out of range is undefined in C++; every read below is guarded by a size
    test, and the model returns 0 there. *)
Definition push_back {A : Type} (v : list A) (x : A) : list A := v ++ [x].
Definition at_ (v : list Z) (i : Z) : Z := nth (Z.to_nat i) v 0.
Definition size {A : Type} (v : list A) : Z := Z.of_nat (length v).

(** ** CParams *)

Module Params.

Inductive work_mode_t := none | compress | decompress.
Inductive file_type := VCF | BCF.

Record CParams := mkCParams {
  work_mode : work_mode_t;
  vcf_file_name : string;
  db_file_name : string;
  sample_file_name : string;
  id_sample : string;
  store_sample_header : bool;
  out_type : file_type;
  bcf_compression_level : Z;      (* char *)
  extra_variants : bool;
  (* internal params *)
  neglect_limit : Z;              (* uint32_t *)
  no_threads : Z                  (* uint32_t *)
}.

(** Assignments to single members. *)
Definition set_work_mode (x : work_mode_t) (p : CParams) : CParams :=
  mkCParams x (vcf_file_name p) (db_file_name p) (sample_file_name p)
    (id_sample p) (store_sample_header p) (out_type p)
    (bcf_compression_level p) (extra_variants p) (neglect_limit p) (no_threads p).

Definition set_store_sample_header (x : bool) (p : CParams) : CParams :=
  mkCParams (work_mode p) (vcf_file_name p) (db_file_name p) (sample_file_name p)
    (id_sample p) x (out_type p)
    (bcf_compression_level p) (extra_variants p) (neglect_limit p) (no_threads p).

Definition set_out_type (x : file_type) (p : CParams) : CParams :=
  mkCParams (work_mode p) (vcf_file_name p) (db_file_name p) (sample_file_name p)
    (id_sample p) (store_sample_header p) x
    (bcf_compression_level p) (extra_variants p) (neglect_limit p) (no_threads p).

Definition set_bcf_compression_level (x : Z) (p : CParams) : CParams :=
  mkCParams (work_mode p) (vcf_file_name p) (db_file_name p) (sample_file_name p)
    (id_sample p) (store_sample_header p) (out_type p)
    x (extra_variants p) (neglect_limit p) (no_threads p).

Definition set_extra_variants (x : bool) (p : CParams) : CParams :=
  mkCParams (work_mode p) (vcf_file_name p) (db_file_name p) (sample_file_name p)
    (id_sample p) (store_sample_header p) (out_type p)
    (bcf_compression_level p) x (neglect_limit p) (no_threads p).

Definition set_neglect_limit (x : Z) (p : CParams) : CParams :=
  mkCParams (work_mode p) (vcf_file_name p) (db_file_name p) (sample_file_name p)
    (id_sample p) (store_sample_header p) (out_type p)
    (bcf_compression_level p) (extra_variants p) x (no_threads p).

Definition set_no_threads (x : Z) (p : CParams) : CParams :=
  mkCParams (work_mode p) (vcf_file_name p) (db_file_name p) (sample_file_name p)
    (id_sample p) (store_sample_header p) (out_type p)
    (bcf_compression_level p) (extra_variants p) (neglect_limit p) x.

(** Member initialisation before the constructor body runs: the four
    [std::string] members are default-constructed (empty); the scalar members
    are left with whatever the storage [raw] holds. *)
Definition default_members (raw : CParams) : CParams :=
  mkCParams (work_mode raw) EmptyString EmptyString EmptyString EmptyString
    (store_sample_header raw) (out_type raw) (bcf_compression_level raw)
    (extra_variants raw) (neglect_limit raw) (no_threads raw).

(** [CParams::CParams()]: the assignments of the body, in source order. *)
Definition CParams_ctor (raw : CParams) : CParams :=
  let p := default_members raw in
  let p := set_work_mode none p in
  let p := set_no_threads 1 p in
  let p := set_store_sample_header false p in
  let p := set_out_type VCF p in
  let p := set_bcf_compression_level (char_code "1") p in
  let p := set_extra_variants false p in
  let p := set_no_threads 8 p in
  (* internal params *)
  let p := set_neglect_limit 10 p in
  p.

(** [CParams::store_params]: five [push_back]s on the caller's vector.  A
    [char] literal and the [uint32_t] member are both converted to [uint8_t]. *)
Definition store_params (p : CParams) (v_params : list Z) : list Z :=
  let v_params := push_back v_params (to_uint8 (char_code "G")) in
  let v_params := push_back v_params (to_uint8 (char_code "T")) in
  let v_params := push_back v_params (to_uint8 (char_code "S")) in
  let v_params := push_back v_params (to_uint8 (char_code "1")) in
  let v_params := push_back v_params (to_uint8 (neglect_limit p)) in
  v_params.

(** [CParams::load_params]: the returned flag and the object afterwards.  The
    local [i] is threaded through the post-increments. *)
Definition load_params (p : CParams) (v_params : list Z) : bool * CParams :=
  let i := 0 in
  if negb (size v_params =? 5) then (false, p) else
  if negb (at_ v_params i =? char_code "G") then (false, p) else
  let i := i + 1 in
  if negb (at_ v_params i =? char_code "T") then (false, p) else
  let i := i + 1 in
  if negb (at_ v_params i =? char_code "S") then (false, p) else
  let i := i + 1 in
  if negb (at_ v_params i =? char_code "1") then (false, p) else
  let i := i + 1 in
  (true, set_neglect_limit (at_ v_params i) p).

(** The blob [load_params] accepts. *)
Definition well_formed_blob (v : list Z) : Prop :=
  length v = 5%nat /\
  firstn 4 v = [char_code "G"; char_code "T"; char_code "S"; char_code "1"].

(** Some storage for concrete evaluations, and the object the default
    constructor makes of it. *)
Definition raw_zero : CParams :=
  mkCParams decompress EmptyString EmptyString EmptyString EmptyString
    true BCF 0 true 0 0.

Definition default_params : CParams := CParams_ctor raw_zero.

End Params.

(** ** CRegisteringQueue *)

Module Queue.

Section WithElements.

Variable T : Type.

(** The data members.  The mutex and the condition variable carry no data:
    every method body runs with [mtx] held, so a call is one atomic step on
    this record, and [notify_all] only wakes threads suspended in [Pop]. *)
Record CRegisteringQueue := mkQueue {
  q : list T;            (* queue<T, deque<T>>, front of the queue first *)
  is_completed : bool;
  n_producers : Z;       (* int *)
  n_elements : Z         (* uint32_t *)
}.

(** [Restart]: assigns the three scalar members and leaves [q] alone. *)
Definition Restart (_n_producers : Z) (s : CRegisteringQueue) : CRegisteringQueue :=
  mkQueue (q s) false _n_producers 0.

(** The constructor: [q] is default-constructed (empty), the scalars hold
    whatever the storage [raw] holds, and the body calls [Restart]. *)
Definition CRegisteringQueue_ctor (_n_producers : Z) (raw : CRegisteringQueue)
  : CRegisteringQueue :=
  Restart _n_producers (mkQueue [] (is_completed raw) (n_producers raw) (n_elements raw)).

Definition IsEmpty (s : CRegisteringQueue) : bool := n_elements s =? 0.

Definition IsCompleted (s : CRegisteringQueue) : bool :=
  (n_elements s =? 0) && (n_producers s =? 0).

(** [MarkCompleted]: [n_producers--] on an [int].  Decrementing the smallest
    [int] overflows, which C++ leaves undefined: no result there. *)
Definition MarkCompleted (s : CRegisteringQueue) : option CRegisteringQueue :=
  if n_producers s =? INT_MIN then None
  else Some (mkQueue (q s) (is_completed s) (n_producers s - 1) (n_elements s)).

(** [Push]: [q.push(data); ++n_elements] with the counter wrapping at 32 bits. *)
Definition Push (data : T) (s : CRegisteringQueue) : CRegisteringQueue :=
  mkQueue (push_back (q s) data) (is_completed s) (n_producers s)
    (to_uint32 (n_elements s + 1)).

(** [Emplace] forwards to [Push]. *)
Definition Emplace (data : T) (s : CRegisteringQueue) : CRegisteringQueue :=
  Push data s.

(** [PushRange]: the loop pushes every element of [data] in order, then
    [n_elements += data.size()] converts the sum back to [uint32_t]. *)
Definition PushRange (data : list T) (s : CRegisteringQueue) : CRegisteringQueue :=
  mkQueue (fold_left (fun qq x => push_back qq x) data (q s))
    (is_completed s) (n_producers s)
    (to_uint32 (n_elements s + size data)).

(** The predicate [Pop] waits on: [!q.empty() || !n_producers]. *)
Definition pop_ready (s : CRegisteringQueue) : bool :=
  negb (match q s with [] => true | _ :: _ => false end) || (n_producers s =? 0).

(** What a call of [Pop] does when it runs on state [s] with nobody else
    changing the queue: it stays suspended in [wait] ([PopWaits]), or returns
    its flag with the new value of the reference parameter and the new state;
    [front()] of an empty deque is undefined ([PopUndefined]). *)
Inductive pop_result :=
| PopWaits
| PopUndefined
| PopReturns (ret : bool) (data : T) (s : CRegisteringQueue).

Definition Pop (data : T) (s : CRegisteringQueue) : pop_result :=
  if negb (pop_ready s) then PopWaits else
  if n_elements s =? 0 then PopReturns false data s else
  match q s with
  | [] => PopUndefined
  | front :: rest =>
      PopReturns true front
        (mkQueue rest (is_completed s) (n_producers s) (to_uint32 (n_elements s - 1)))
  end.

Definition GetSize (s : CRegisteringQueue) : Z := n_elements s.

(** The flag a call returned, if it returned. *)
Definition pop_flag (r : pop_result) : option bool :=
  match r with PopReturns ret _ _ => Some ret | _ => None end.

(** States of a queue object: built by the constructor, then driven by
    [Push], [PushRange], [Pop] and [MarkCompleted]. *)
Inductive reachable : CRegisteringQueue -> Prop :=
| reach_ctor n raw : reachable (CRegisteringQueue_ctor n raw)
| reach_Push x s : reachable s -> reachable (Push x s)
| reach_PushRange xs s : reachable s -> reachable (PushRange xs s)
| reach_Pop d s ret d' s' :
    reachable s -> Pop d s = PopReturns ret d' s' -> reachable s'
| reach_MarkCompleted s s' :
    reachable s -> MarkCompleted s = Some s' -> reachable s'.

(** The counter agrees with the container. *)
Definition coherent (s : CRegisteringQueue) : Prop :=
  n_elements s = size (q s).

(** The counter agrees with the container up to the width of the counter. *)
Definition coherent_mod (s : CRegisteringQueue) : Prop :=
  n_elements s = to_uint32 (size (q s)).

(** A single-threaded trace: [Push] for every element of [xs], in order. *)
Definition push_all (xs : list T) (s : CRegisteringQueue) : CRegisteringQueue :=
  fold_left (fun st x => Push x st) xs s.

(** A single-threaded trace of [k] calls of [Pop] on the same variable
    [data]: the flag and value of every call that returned, and the final
    state.  A call that stays suspended (or is undefined) ends the trace. *)
Fixpoint pop_many (k : nat) (data : T) (s : CRegisteringQueue)
  : list (bool * T) * CRegisteringQueue :=
  match k with
  | O => ([], s)
  | S k' =>
      match Pop data s with
      | PopReturns ret data' s' =>
          let (outs, fin) := pop_many k' data' s' in ((ret, data') :: outs, fin)
      | _ => ([], s)
      end
  end.

(** The elements handed out by the calls that returned [true]. *)
Definition popped (outs : list (bool * T)) : list T :=
  map snd (filter fst outs).

(** [k] calls of [MarkCompleted] in a row; no result once a call is
    undefined. *)
Fixpoint mark_many (k : nat) (s : CRegisteringQueue) : option CRegisteringQueue :=
  match k with
  | O => Some s
  | S k' =>
      match MarkCompleted s with
      | Some s' => mark_many k' s'
      | None => None
      end
  end.

End WithElements.

Arguments q {T} _.
Arguments is_completed {T} _.
Arguments n_producers {T} _.
Arguments n_elements {T} _.
Arguments mkQueue {T} _ _ _ _.
Arguments Restart {T} _ _.
Arguments CRegisteringQueue_ctor {T} _ _.
Arguments IsEmpty {T} _.
Arguments IsCompleted {T} _.
Arguments MarkCompleted {T} _.
Arguments Push {T} _ _.
Arguments Emplace {T} _ _.
Arguments PushRange {T} _ _.
Arguments pop_ready {T} _.
Arguments PopWaits {T}.
Arguments PopUndefined {T}.
Arguments PopReturns {T} _ _ _.
Arguments Pop {T} _ _.
Arguments GetSize {T} _.
Arguments pop_flag {T} _.
Arguments reachable {T} _.
Arguments coherent {T} _.
Arguments coherent_mod {T} _.
Arguments push_all {T} _ _.
Arguments pop_many {T} _ _ _.
Arguments popped {T} _.
Arguments mark_many {T} _ _.

(** Concrete objects for evaluations: some storage of a queue of integers
    and of a queue of units, a queue of integers holding one element, a
    vector of [2^32] units, and an empty queue whose producers are done. *)
Definition raw_ints : CRegisteringQueue Z := mkQueue [] true 5 7.
Definition raw_units : CRegisteringQueue unit := mkQueue [] true 5 7.
Definition one_int : CRegisteringQueue Z :=
  Push 7 (CRegisteringQueue_ctor 1 raw_ints).
Definition huge_range : list unit := repeat tt (Z.to_nat (2 ^ 32)).
Definition drained_ints : CRegisteringQueue Z := mkQueue [] false 0 0.
Definition restarted_ints : CRegisteringQueue Z := Restart 1 one_int.

End Queue.

(** ** CSemaphore *)

Module Semaphore.

(** The data members; the mutex and the condition variable carry no data,
    and every method body runs with the mutex held. *)
Record CSemaphore := mkSem {
  counter : Z;        (* int *)
  generation : Z      (* int *)
}.

Definition is_int (x : Z) : Prop := INT_MIN <= x <= INT_MAX.
Definition in_int (x : Z) : bool := (INT_MIN <=? x) && (x <=? INT_MAX).

(** [CSemaphore(int _counter = 0)]. *)
Definition CSemaphore_ctor (_counter : Z) : CSemaphore := mkSem _counter 0.

(** [Inc]: [++counter] in the current generation, otherwise the generation
    is replaced and the count starts again at 1.  Arithmetic that leaves the
    range of [int] is undefined in C++: no result there. *)
Definition Inc (new_generation : Z) (s : CSemaphore) : option CSemaphore :=
  if generation s =? new_generation then
    if in_int (counter s + 1) then Some (mkSem (counter s + 1) (generation s))
    else None
  else Some (mkSem 1 new_generation).

(** [IncNum]: [counter += num], or a new generation starting at [num]. *)
Definition IncNum (num new_generation : Z) (s : CSemaphore) : option CSemaphore :=
  if generation s =? new_generation then
    if in_int (counter s + num) then Some (mkSem (counter s + num) (generation s))
    else None
  else Some (mkSem num new_generation).

(** [Dec]: [--counter] when the generation matches, nothing otherwise; the
    notification that follows when the counter is 0 changes no member. *)
Definition Dec (dec_generation : Z) (s : CSemaphore) : option CSemaphore :=
  if generation s =? dec_generation then
    if in_int (counter s - 1) then Some (mkSem (counter s - 1) (generation s))
    else None
  else Some s.

(** [Dec_notify_all] differs from [Dec] only in whom it wakes. *)
Definition Dec_notify_all (dec_generation : Z) (s : CSemaphore) : option CSemaphore :=
  Dec dec_generation s.

(** The predicate [WaitForZero] waits on. *)
Definition zero_reached (wait_generation : Z) (s : CSemaphore) : bool :=
  (counter s =? 0) && (generation s =? wait_generation).

(** [WaitForZero] on state [s] with nobody else changing the semaphore: the
    call returns (the state is untouched) or stays suspended. *)
Inductive wait_result := WaitSuspended | WaitReturns (s : CSemaphore).

Definition WaitForZero (wait_generation : Z) (s : CSemaphore) : wait_result :=
  if zero_reached wait_generation s then WaitReturns s else WaitSuspended.

(** [k] calls of [Inc], and of [Dec], in a row. *)
Fixpoint inc_many (k : nat) (g : Z) (s : CSemaphore) : option CSemaphore :=
  match k with
  | O => Some s
  | S k' => match Inc g s with Some s' => inc_many k' g s' | None => None end
  end.

Fixpoint dec_many (k : nat) (g : Z) (s : CSemaphore) : option CSemaphore :=
  match k with
  | O => Some s
  | S k' => match Dec g s with Some s' => dec_many k' g s' | None => None end
  end.

(** Concrete semaphores for evaluations: a new one, and one counting 3 in
    generation 0. *)
Definition fresh : CSemaphore := CSemaphore_ctor 0.
Definition three : CSemaphore := mkSem 3 0.

End Semaphore.

(** ** Constants of CCompressedFile *)

Module CompressedFile.

(** Modelled from the spec: [context_t] is declared in defs.h, which is not
    among the sources; the spec describes a context as a 64-bit tag, so a
    value stored in a [context_t] is reduced to 64 bits. *)
Definition to_context_t (x : Z) : Z := to_uint64 x.

(** [size_t] on the 64-bit targets the program is built for. *)
Definition to_size_t (x : Z) : Z := to_uint64 x.

(** [a << b] on [int] operands (the value is defined when it fits an [int]),
    on [unsigned] operands and on [unsigned long long] operands. *)
Definition shl_int (a b : Z) : Z := Z.shiftl a b.
Definition shl_unsigned (a b : Z) : Z := to_uint32 (Z.shiftl a b).
Definition shl_ull (a b : Z) : Z := to_uint64 (Z.shiftl a b).

Definition max_buffer_size : Z := to_uint32 (shl_int 8 20).
Definition max_buffer_gt_size : Z := to_uint32 (shl_int 256 20).
Definition max_buffer_db_size : Z := to_uint32 (shl_int 8 20).

Definition pp_compress_flag : Z := to_size_t (shl_unsigned 1 30).
Definition max_cnt_packages : Z := 3.

Definition context_symbol_flag : Z := to_context_t (shl_ull 1 60).
Definition context_symbol_mask : Z := to_context_t 0xffff.

Definition context_prefix_mask : Z := to_context_t 0xfffff.
Definition context_prefix_flag : Z := to_context_t (shl_ull 2 60).
Definition context_suffix_flag : Z := to_context_t (shl_ull 3 60).
Definition context_large_value1_flag : Z := to_context_t (shl_ull 4 60).
Definition context_large_value2_flag : Z := to_context_t (shl_ull 5 60).
Definition context_large_value3_flag : Z := to_context_t (shl_ull 6 60).

Definition id_db_chrom : Z := 0.
Definition id_db_pos : Z := 1.
Definition id_db_id : Z := 2.
Definition id_db_ref : Z := 3.
Definition id_db_alt : Z := 4.
Definition id_db_qual : Z := 5.
Definition no_db_fields : Z := 6.

Definition db_stream_name_size : list string :=
  [ "db_chrom_size"; "db_pos_size"; "db_id_size"; "db_ref_size";
    "db_alt_size"; "db_qual_size" ]%string.
Definition db_stream_name_data : list string :=
  [ "idb_chrom_data"; "idb_pos_data"; "idb_id_data"; "idb_ref_data";
    "idb_alt_data"; "idb_qual_data" ]%string.

(** The database field ids, in declaration order. *)
Definition db_field_ids : list Z :=
  [ id_db_chrom; id_db_pos; id_db_id; id_db_ref; id_db_alt; id_db_qual ].

(** Units of size. *)
Definition MiB : Z := 2 ^ 20.
Definition GiB : Z := 2 ^ 30.

(** The six type flags, in declaration order. *)
Definition context_type_flags : list Z :=
  [ context_symbol_flag; context_prefix_flag; context_suffix_flag;
    context_large_value1_flag; context_large_value2_flag;
    context_large_value3_flag ].

End CompressedFile.

(** * Properties *)

(** ** Fixed-width integers and vectors *)

Lemma to_uint8_range x : is_uint8 (to_uint8 x).
Proof. unfold is_uint8, to_uint8. apply Z.mod_pos_bound. lia. Qed.

Lemma to_uint32_range x : is_uint32 (to_uint32 x).
Proof. unfold is_uint32, to_uint32. apply Z.mod_pos_bound. lia. Qed.

Lemma to_uint32_small x : is_uint32 x -> to_uint32 x = x.
Proof. unfold is_uint32, to_uint32. intros H. apply Z.mod_small. exact H. Qed.

Lemma to_uint8_small x : is_uint8 x -> to_uint8 x = x.
Proof. unfold is_uint8, to_uint8. intros H. apply Z.mod_small. exact H. Qed.

Lemma to_uint32_add_l a b : to_uint32 (to_uint32 a + b) = to_uint32 (a + b).
Proof. unfold to_uint32. apply Zplus_mod_idemp_l. Qed.

Lemma to_uint32_sub_l a b : to_uint32 (to_uint32 a - b) = to_uint32 (a - b).
Proof. unfold to_uint32. apply Zminus_mod_idemp_l. Qed.

Lemma size_nil {A} : size (@nil A) = 0.
Proof. reflexivity. Qed.

Lemma size_cons {A} (x : A) v : size (x :: v) = size v + 1.
Proof. unfold size. cbn [length]. lia. Qed.

Lemma size_app {A} (v w : list A) : size (v ++ w) = size v + size w.
Proof. unfold size. rewrite length_app. lia. Qed.

Lemma size_push_back {A} (v : list A) x : size (push_back v x) = size v + 1.
Proof. unfold push_back. rewrite size_app, size_cons, size_nil. lia. Qed.

Lemma size_nonneg {A} (v : list A) : 0 <= size v.
Proof. unfold size. lia. Qed.

Lemma size_repeat {A} (x : A) n : size (repeat x n) = Z.of_nat n.
Proof. unfold size. rewrite repeat_length. reflexivity. Qed.

(** ** CParams *)

Section ParamsFacts.

Import Params.

(** A later assignment to [no_threads] overwrites an earlier one. *)
Lemma set_no_threads_twice a b p :
  set_no_threads b (set_no_threads a p) = set_no_threads b p.
Proof. reflexivity. Qed.

Lemma store_params_app p v :
  store_params p v =
  v ++ [char_code "G"; char_code "T"; char_code "S"; char_code "1";
        to_uint8 (neglect_limit p)].
Proof.
  unfold store_params, push_back.
  repeat rewrite <- app_assoc. reflexivity.
Qed.

(** C1: [store_params] appends exactly five bytes to the vector it is given:
    the codes of 'G', 'T', 'S', '1' and then one byte, the [uint8_t]
    conversion of [neglect_limit] (which is [neglect_limit] itself whenever
    that fits a byte).  The bytes already in the vector are kept. *)
Theorem store_params_appends_blob (p : CParams) (v : list Z) :
  store_params p v =
    v ++ [char_code "G"; char_code "T"; char_code "S"; char_code "1";
          neglect_limit p mod 2 ^ 8]
  /\ length (store_params p v) = (length v + 5)%nat
  /\ Forall is_uint8 (skipn (length v) (store_params p v))
  /\ (is_uint8 (neglect_limit p) ->
      store_params p v =
        v ++ [char_code "G"; char_code "T"; char_code "S"; char_code "1";
              neglect_limit p]).
Proof.
  rewrite store_params_app.
  split; [reflexivity|].
  split; [rewrite length_app; reflexivity|].
  split.
  - rewrite skipn_app, skipn_all, Nat.sub_diag. cbn [app skipn].
    repeat (apply Forall_cons); try apply Forall_nil;
      try apply to_uint8_range; unfold is_uint8; vm_compute; intuition congruence.
  - intros H. rewrite (to_uint8_small _ H). reflexivity.
Qed.

Lemma size_is_5 (v : list Z) :
  (size v =? 5) = true <-> length v = 5%nat.
Proof. unfold size. rewrite Z.eqb_eq. lia. Qed.

Lemma load_params_accepts p v :
  fst (load_params p v) = true <-> well_formed_blob v.
Proof.
  unfold well_formed_blob, load_params.
  destruct (size v =? 5) eqn:Hs; cbn [negb].
  - apply size_is_5 in Hs.
    destruct v as [|a [|b [|c [|d [|e [|f v]]]]]]; try discriminate Hs.
    change (at_ [a; b; c; d; e] 0) with a.
    change (at_ [a; b; c; d; e] (0 + 1)) with b.
    change (at_ [a; b; c; d; e] (0 + 1 + 1)) with c.
    change (at_ [a; b; c; d; e] (0 + 1 + 1 + 1)) with d.
    cbn [firstn].
    destruct (a =? char_code "G") eqn:Ha; cbn [negb fst];
      [apply Z.eqb_eq in Ha | apply Z.eqb_neq in Ha].
    2:{ split; [discriminate | intros [_ H]; congruence]. }
    destruct (b =? char_code "T") eqn:Hb; cbn [negb fst];
      [apply Z.eqb_eq in Hb | apply Z.eqb_neq in Hb].
    2:{ split; [discriminate | intros [_ H]; congruence]. }
    destruct (c =? char_code "S") eqn:Hc; cbn [negb fst];
      [apply Z.eqb_eq in Hc | apply Z.eqb_neq in Hc].
    2:{ split; [discriminate | intros [_ H]; congruence]. }
    destruct (d =? char_code "1") eqn:Hd; cbn [negb fst];
      [apply Z.eqb_eq in Hd | apply Z.eqb_neq in Hd].
    2:{ split; [discriminate | intros [_ H]; congruence]. }
    subst. split; [intros _; split; reflexivity | reflexivity].
  - cbn [fst]. split; [discriminate|].
    intros [Hl _]. apply size_is_5 in Hl. congruence.
Qed.

Lemma load_params_result p v :
  load_params p v = (false, p) \/
  load_params p v = (true, set_neglect_limit (at_ v 4) p).
Proof.
  unfold load_params.
  destruct (negb (size v =? 5)); [left; reflexivity|].
  destruct (negb (at_ v 0 =? char_code "G")); [left; reflexivity|].
  destruct (negb (at_ v (0 + 1) =? char_code "T")); [left; reflexivity|].
  destruct (negb (at_ v (0 + 1 + 1) =? char_code "S")); [left; reflexivity|].
  destruct (negb (at_ v (0 + 1 + 1 + 1) =? char_code "1")); [left; reflexivity|].
  right. reflexivity.
Qed.

(** C2: [load_params] returns [true] if and only if the vector has exactly
    five bytes and the first four are 'G', 'T', 'S', '1'.  When it returns
    [false] the object is left as it was, [neglect_limit] included; when it
    returns [true] only [neglect_limit] changes, to the fifth byte. *)
Theorem load_params_iff_blob (p : CParams) (v : list Z) :
  (fst (load_params p v) = true <->
     length v = 5%nat /\
     firstn 4 v = [char_code "G"; char_code "T"; char_code "S"; char_code "1"])
  /\ (fst (load_params p v) = false ->
        snd (load_params p v) = p /\
        neglect_limit (snd (load_params p v)) = neglect_limit p)
  /\ (fst (load_params p v) = true ->
        snd (load_params p v) = set_neglect_limit (nth 4 v 0) p).
Proof.
  split; [apply load_params_accepts|].
  destruct (load_params_result p v) as [H|H]; rewrite H; cbn [fst snd].
  - split; [intros _; split; reflexivity | discriminate].
  - split; [discriminate | intros _; reflexivity].
Qed.

Lemma load_store p q :
  load_params q (store_params p []) =
  (true, set_neglect_limit (to_uint8 (neglect_limit p)) q).
Proof. reflexivity. Qed.

(** C3: storing the parameters of [p] into an empty vector and loading that
    vector (into any object [q], [p] itself included) succeeds and sets
    [neglect_limit] to [p]'s value modulo 256; the value read back is [p]'s
    own exactly when that is below 256. *)
Theorem store_load_roundtrip (p q : CParams) :
  is_uint32 (neglect_limit p) ->
  fst (load_params q (store_params p [])) = true
  /\ neglect_limit (snd (load_params q (store_params p []))) =
       neglect_limit p mod 256
  /\ (neglect_limit (snd (load_params q (store_params p []))) = neglect_limit p
      <-> neglect_limit p < 256)
  /\ (snd (load_params p (store_params p [])) = p <-> neglect_limit p < 256).
Proof.
  intros [Hlo Hhi].
  rewrite !load_store. cbn [fst snd neglect_limit set_neglect_limit].
  unfold to_uint8. change (2 ^ 8) with 256.
  assert (Hmod : neglect_limit p mod 256 = neglect_limit p <-> neglect_limit p < 256).
  { split; intros H.
    - rewrite <- H. apply Z.mod_pos_bound. lia.
    - apply Z.mod_small. lia. }
  split; [reflexivity|]. split; [reflexivity|]. split; [exact Hmod|].
  rewrite <- Hmod. split; intros H.
  - apply (f_equal neglect_limit) in H. exact H.
  - destruct p as [wm f1 f2 f3 f4 sh ot lv ev nl nt].
    unfold set_neglect_limit.
    cbn [work_mode vcf_file_name db_file_name sample_file_name id_sample
         store_sample_header out_type bcf_compression_level extra_variants
         neglect_limit no_threads] in *.
    rewrite H. reflexivity.
Qed.

(** The round trip of the default parameters ([neglect_limit = 10]). *)
Lemma store_load_roundtrip_default :
  is_uint32 (neglect_limit default_params)
  /\ fst (load_params default_params (store_params default_params [])) = true
  /\ neglect_limit (snd (load_params default_params
                           (store_params default_params []))) =
       neglect_limit default_params mod 256
  /\ (neglect_limit (snd (load_params default_params
                            (store_params default_params []))) =
       neglect_limit default_params
      <-> neglect_limit default_params < 256)
  /\ (snd (load_params default_params (store_params default_params [])) =
       default_params
      <-> neglect_limit default_params < 256).
Proof.
  assert (H : is_uint32 (neglect_limit default_params)).
  { unfold is_uint32. change (neglect_limit default_params) with 10. lia. }
  split; [exact H|].
  exact (store_load_roundtrip default_params default_params H).
Defined.

(** C7: after the default constructor, [no_threads] is 8 (the body assigns 1
    and later 8) and [work_mode] is [none], whatever the storage held before;
    the other members get their documented defaults. *)
Theorem CParams_ctor_defaults (raw : CParams) :
  no_threads (CParams_ctor raw) = 8
  /\ work_mode (CParams_ctor raw) = none
  /\ CParams_ctor raw =
       mkCParams none EmptyString EmptyString EmptyString EmptyString
         false VCF (char_code "1") false 10 8.
Proof.
  unfold CParams_ctor.
  repeat split.
Qed.

(** Evaluations on concrete blobs. *)
Example store_params_default :
  store_params default_params [] = [71; 84; 83; 49; 10].
Proof. reflexivity. Qed.

Example store_params_truncates :
  store_params (set_neglect_limit 300 default_params) [1; 2] =
  [1; 2; 71; 84; 83; 49; 44].
Proof. reflexivity. Qed.

Example load_params_accepts_blob :
  load_params default_params [71; 84; 83; 49; 200] =
  (true, set_neglect_limit 200 default_params).
Proof. reflexivity. Qed.

Example load_params_rejects_short :
  load_params default_params [71; 84; 83; 49] = (false, default_params).
Proof. reflexivity. Qed.

Example load_params_rejects_long :
  load_params default_params [71; 84; 83; 49; 10; 0] = (false, default_params).
Proof. reflexivity. Qed.

Example load_params_rejects_magic :
  load_params default_params [71; 84; 83; 50; 10] = (false, default_params).
Proof. reflexivity. Qed.

End ParamsFacts.

(** ** CRegisteringQueue *)

Section QueueFacts.

Import Queue.

Context {T : Type}.

Implicit Types (s : CRegisteringQueue T) (xs : list T) (d x : T).

Lemma fold_push_back xs (l : list T) :
  fold_left (fun qq x => push_back qq x) xs l = l ++ xs.
Proof.
  revert l. induction xs as [|x xs IH]; intros l; cbn [fold_left].
  - rewrite app_nil_r. reflexivity.
  - rewrite IH. unfold push_back. rewrite <- app_assoc. reflexivity.
Qed.

Lemma PushRange_q xs s : q (PushRange xs s) = q s ++ xs.
Proof. unfold PushRange. cbn [q]. apply fold_push_back. Qed.

Lemma PushRange_n_elements xs s :
  n_elements (PushRange xs s) = to_uint32 (n_elements s + size xs).
Proof. reflexivity. Qed.

Lemma Push_q x s : q (Push x s) = q s ++ [x].
Proof. reflexivity. Qed.

Lemma Push_n_elements x s :
  n_elements (Push x s) = to_uint32 (n_elements s + 1).
Proof. reflexivity. Qed.

(** The three ways a call of [Pop] can go, by the state it runs on. *)
Lemma Pop_cases d s :
  (Pop d s = PopWaits /\ q s = [] /\ n_producers s <> 0)
  \/ (Pop d s = PopReturns false d s /\ n_elements s = 0 /\
      (q s <> [] \/ n_producers s = 0))
  \/ (Pop d s = PopUndefined /\ n_elements s <> 0 /\ q s = [] /\ n_producers s = 0)
  \/ (exists front rest,
        q s = front :: rest /\ n_elements s <> 0 /\
        Pop d s = PopReturns true front
                    (mkQueue rest (is_completed s) (n_producers s)
                       (to_uint32 (n_elements s - 1)))).
Proof.
  unfold Pop, pop_ready.
  destruct (q s) as [|front rest] eqn:Hq; cbn [negb orb].
  - destruct (n_producers s =? 0) eqn:Hp; cbn [negb];
      [apply Z.eqb_eq in Hp | apply Z.eqb_neq in Hp].
    + destruct (n_elements s =? 0) eqn:Hn;
        [apply Z.eqb_eq in Hn | apply Z.eqb_neq in Hn].
      * right; left. auto.
      * right; right; left. auto.
    + left. auto.
  - destruct (n_elements s =? 0) eqn:Hn;
      [apply Z.eqb_eq in Hn | apply Z.eqb_neq in Hn].
    + right; left. repeat split; auto. left. discriminate.
    + right; right; right. exists front, rest. auto.
Qed.

(** *** The counter and the container *)

Lemma coherent_mod_ctor n (raw : CRegisteringQueue T) :
  coherent_mod (CRegisteringQueue_ctor n raw).
Proof. reflexivity. Qed.

Lemma coherent_mod_Push x s : coherent_mod s -> coherent_mod (Push x s).
Proof.
  unfold coherent_mod. intros H.
  rewrite Push_n_elements, Push_q, size_app, size_cons, size_nil, H.
  rewrite to_uint32_add_l. f_equal; lia.
Qed.

Lemma coherent_mod_PushRange xs s : coherent_mod s -> coherent_mod (PushRange xs s).
Proof.
  unfold coherent_mod. intros H.
  rewrite PushRange_n_elements, PushRange_q, size_app, H.
  apply to_uint32_add_l.
Qed.

Lemma coherent_mod_Pop d s ret d' s' :
  coherent_mod s -> Pop d s = PopReturns ret d' s' -> coherent_mod s'.
Proof.
  intros H HP.
  destruct (Pop_cases d s) as [[E _]|[[E _]|[[E _]|(front & rest & Hq & Hn & E)]]];
    rewrite E in HP; try discriminate HP.
  - injection HP as _ _ <-. exact H.
  - injection HP as _ _ <-. unfold coherent_mod in *. cbn [n_elements q].
    rewrite H, Hq, size_cons, to_uint32_sub_l. f_equal; lia.
Qed.

Lemma coherent_mod_MarkCompleted s s' :
  coherent_mod s -> MarkCompleted s = Some s' -> coherent_mod s'.
Proof.
  unfold MarkCompleted, coherent_mod. intros H HM.
  destruct (n_producers s =? INT_MIN); [discriminate HM|].
  injection HM as <-. exact H.
Qed.

Lemma reachable_coherent_mod s : reachable s -> coherent_mod s.
Proof.
  induction 1 as [n raw | x s _ IH | xs s _ IH | d s ret d' s' _ IH HP | s s' _ IH HM].
  - apply coherent_mod_ctor.
  - apply coherent_mod_Push, IH.
  - apply coherent_mod_PushRange, IH.
  - exact (coherent_mod_Pop d s ret d' s' IH HP).
  - exact (coherent_mod_MarkCompleted s s' IH HM).
Qed.

Lemma coherent_mod_below s :
  coherent_mod s -> size (q s) < 2 ^ 32 -> coherent s /\ is_uint32 (n_elements s).
Proof.
  unfold coherent_mod, coherent. intros H Hlt.
  assert (Hr : is_uint32 (size (q s))).
  { split; [apply size_nonneg | exact Hlt]. }
  rewrite (to_uint32_small _ Hr) in H. rewrite H. split; [reflexivity | exact Hr].
Qed.

(** A [PushRange] of exactly [2^32] elements on a new queue leaves the
    counter where it was. *)
Lemma PushRange_full_turn xs n (raw : CRegisteringQueue T) :
  size xs = 2 ^ 32 ->
  reachable (PushRange xs (CRegisteringQueue_ctor n raw))
  /\ n_elements (PushRange xs (CRegisteringQueue_ctor n raw)) = 0
  /\ Z.of_nat (length (q (PushRange xs (CRegisteringQueue_ctor n raw)))) = 2 ^ 32
  /\ n_elements (PushRange xs (CRegisteringQueue_ctor n raw)) <>
     Z.of_nat (length (q (PushRange xs (CRegisteringQueue_ctor n raw)))).
Proof.
  intros Hsz.
  assert (Hn : n_elements (PushRange xs (CRegisteringQueue_ctor n raw)) = 0).
  { rewrite PushRange_n_elements, Hsz. reflexivity. }
  assert (Hl : Z.of_nat (length (q (PushRange xs (CRegisteringQueue_ctor n raw))))
               = 2 ^ 32).
  { rewrite PushRange_q. exact Hsz. }
  split; [apply reach_PushRange, reach_ctor|].
  split; [exact Hn|]. split; [exact Hl|].
  rewrite Hn, Hl. discriminate.
Qed.

(** C6, as the code has it: in every state the constructor, [Push],
    [PushRange], [Pop] and [MarkCompleted] can produce, the 32-bit counter
    [n_elements] equals the number of elements of [q] modulo [2^32]; so the
    two are equal in every such state whose [q] holds fewer than [2^32]
    elements. *)
Theorem n_elements_counts_q_mod s :
  reachable s ->
  n_elements s = Z.of_nat (length (q s)) mod 2 ^ 32
  /\ (Z.of_nat (length (q s)) < 2 ^ 32 ->
      n_elements s = Z.of_nat (length (q s))).
Proof.
  intros Hr. pose proof (reachable_coherent_mod s Hr) as H.
  split; [exact H|].
  intros Hlt. apply (coherent_mod_below s H Hlt).
Qed.

(** *** Pop *)

Lemma Pop_nonempty d s front rest :
  is_uint32 (n_elements s) -> coherent s -> q s = front :: rest ->
  Pop d s = PopReturns true front
              (mkQueue rest (is_completed s) (n_producers s) (n_elements s - 1)).
Proof.
  unfold coherent. intros Hu Hc Hq.
  assert (Hn : 1 <= n_elements s).
  { rewrite Hc, Hq, size_cons. pose proof (size_nonneg rest). lia. }
  unfold Pop, pop_ready. rewrite Hq. cbn [negb orb].
  destruct (n_elements s =? 0) eqn:E; [apply Z.eqb_eq in E; lia|].
  rewrite to_uint32_small; [reflexivity|].
  unfold is_uint32 in *. lia.
Qed.

Lemma Pop_empty_done d s :
  coherent s -> q s = [] -> n_producers s = 0 -> Pop d s = PopReturns false d s.
Proof.
  unfold coherent. intros Hc Hq Hp.
  unfold Pop, pop_ready. rewrite Hq in *. rewrite Hp, Hc. reflexivity.
Qed.

Lemma Pop_empty_waits d s :
  q s = [] -> n_producers s <> 0 -> Pop d s = PopWaits.
Proof.
  intros Hq Hp. unfold Pop, pop_ready. rewrite Hq. cbn [negb orb].
  apply Z.eqb_neq in Hp. rewrite Hp. reflexivity.
Qed.

(** C4, as the code has it: on a state whose counter [n_elements] equals the
    number of elements of [q], [Pop] returns [false] exactly when [q] is
    empty and [n_producers] is 0, and then changes nothing; when [q] is
    non-empty it returns [true], hands out the front element, removes it and
    takes one off [n_elements]; with [q] empty and producers left, the call
    stays suspended. *)
Theorem Pop_false_iff_drained_and_done d s :
  is_uint32 (n_elements s) -> coherent s ->
  (pop_flag (Pop d s) = Some false <-> q s = [] /\ n_producers s = 0)
  /\ (pop_flag (Pop d s) = Some false -> Pop d s = PopReturns false d s)
  /\ (forall front rest, q s = front :: rest ->
        Pop d s = PopReturns true front
                    (mkQueue rest (is_completed s) (n_producers s)
                       (n_elements s - 1)))
  /\ (q s = [] -> n_producers s <> 0 -> Pop d s = PopWaits).
Proof.
  intros Hu Hc.
  assert (Hfalse : pop_flag (Pop d s) = Some false -> q s = [] /\ n_producers s = 0).
  { destruct (q s) as [|front rest] eqn:Hq.
    - destruct (Z.eq_dec (n_producers s) 0) as [Hp|Hp]; [intros _; auto|].
      rewrite (Pop_empty_waits d s Hq Hp). discriminate.
    - rewrite (Pop_nonempty d s front rest Hu Hc Hq). discriminate. }
  split; [split; [exact Hfalse|]|split; [|split]].
  - intros [Hq Hp]. rewrite (Pop_empty_done d s Hc Hq Hp). reflexivity.
  - intros H. destruct (Hfalse H) as [Hq Hp]. exact (Pop_empty_done d s Hc Hq Hp).
  - intros front rest Hq. exact (Pop_nonempty d s front rest Hu Hc Hq).
  - exact (Pop_empty_waits d s).
Qed.

(** *** First in, first out *)

Lemma push_all_q xs s : q (push_all xs s) = q s ++ xs.
Proof.
  unfold push_all. revert s. induction xs as [|x xs IH]; intros s; cbn [fold_left].
  - rewrite app_nil_r. reflexivity.
  - rewrite IH, Push_q, <- app_assoc. reflexivity.
Qed.

Lemma coherent_mod_push_all xs s : coherent_mod s -> coherent_mod (push_all xs s).
Proof.
  unfold push_all. revert s. induction xs as [|x xs IH]; intros s H; cbn [fold_left].
  - exact H.
  - apply IH, coherent_mod_Push, H.
Qed.

Lemma popped_cons_false d (outs : list (bool * T)) :
  popped ((false, d) :: outs) = popped outs.
Proof. reflexivity. Qed.

Lemma popped_cons_true d (outs : list (bool * T)) :
  popped ((true, d) :: outs) = d :: popped outs.
Proof. reflexivity. Qed.

(** Whatever the calls of [Pop] hand out is an initial segment of [q]. *)
Lemma pop_many_prefix k : forall d s,
  coherent_mod s ->
  popped (fst (pop_many k d s)) =
  firstn (length (popped (fst (pop_many k d s)))) (q s).
Proof.
  induction k as [|k IH]; intros d s Hc; cbn [pop_many].
  - reflexivity.
  - destruct (Pop_cases d s)
      as [(E & _)|[(E & _)|[(E & _)|(front & rest & Hq & Hn & E)]]]; rewrite E.
    + reflexivity.
    + specialize (IH d s Hc).
      destruct (pop_many k d s) as [outs fin]. cbn [fst] in *.
      rewrite popped_cons_false. exact IH.
    + reflexivity.
    + assert (Hc' : coherent_mod
                      (mkQueue rest (is_completed s) (n_producers s)
                         (to_uint32 (n_elements s - 1)))).
      { exact (coherent_mod_Pop d s _ _ _ Hc E). }
      specialize (IH front _ Hc'). cbn [q] in IH.
      destruct (pop_many k front _) as [outs fin]. cbn [fst] in *.
      rewrite popped_cons_true, Hq. cbn [length firstn]. f_equal. exact IH.
Qed.

(** While the counter agrees with the container, the first [k] calls each
    return [true] with the next element of [q]. *)
Lemma pop_many_below k : forall d s,
  is_uint32 (n_elements s) -> coherent s -> (k <= length (q s))%nat ->
  fst (pop_many k d s) = map (pair true) (firstn k (q s)).
Proof.
  induction k as [|k IH]; intros d s Hu Hc Hk; cbn [pop_many].
  - reflexivity.
  - destruct (q s) as [|front rest] eqn:Hq; [cbn [length] in Hk; lia|].
    rewrite (Pop_nonempty d s front rest Hu Hc Hq).
    assert (Hrest : size (front :: rest) = size rest + 1) by apply size_cons.
    unfold coherent in Hc. rewrite Hq in Hc.
    specialize (IH front (mkQueue rest (is_completed s) (n_producers s)
                            (n_elements s - 1))).
    cbn [q n_elements] in IH.
    destruct (pop_many k front _) as [outs fin]. cbn [fst] in *.
    cbn [firstn map]. f_equal. apply IH.
    + pose proof (size_nonneg rest). unfold is_uint32 in *. lia.
    + unfold coherent. cbn [q n_elements]. lia.
    + cbn [length] in Hk. lia.
Qed.

(** C5: after any sequence of [Push] calls on a new queue, the elements that
    a following sequence of [Pop] calls hands out are the pushed elements in
    the order of the pushes (an initial segment of them); and when fewer than
    [2^32] elements were pushed, each of the first [k <= length xs] calls
    returns [true] with the next pushed element. *)
Theorem Pop_order_is_Push_order n (raw : CRegisteringQueue T) xs k d :
  popped (fst (pop_many k d (push_all xs (CRegisteringQueue_ctor n raw)))) =
    firstn
      (length (popped (fst (pop_many k d
                              (push_all xs (CRegisteringQueue_ctor n raw))))))
      xs
  /\ (Z.of_nat (length xs) < 2 ^ 32 -> (k <= length xs)%nat ->
      fst (pop_many k d (push_all xs (CRegisteringQueue_ctor n raw))) =
        map (pair true) (firstn k xs)).
Proof.
  set (s := push_all xs (CRegisteringQueue_ctor n raw)).
  assert (Hq : q s = xs) by (unfold s; rewrite push_all_q; reflexivity).
  assert (Hc : coherent_mod s).
  { apply coherent_mod_push_all, coherent_mod_ctor. }
  split.
  - pose proof (pop_many_prefix k d s Hc) as H. rewrite Hq in H. exact H.
  - intros Hlt Hk.
    assert (Hlt' : size (q s) < 2 ^ 32) by (rewrite Hq; exact Hlt).
    destruct (coherent_mod_below s Hc Hlt') as [Hc' Hu].
    assert (Hk' : (k <= length (q s))%nat) by (rewrite Hq; exact Hk).
    pose proof (pop_many_below k d s Hu Hc' Hk') as H. rewrite Hq in H. exact H.
Qed.

(** *** Further properties of the queue *)

(** X1: on a state whose counter agrees with its container, [IsCompleted]
    answers [true] exactly when a call of [Pop] would return [false]. *)
Theorem IsCompleted_iff_Pop_false d s :
  coherent s ->
  (IsCompleted s = true <-> pop_flag (Pop d s) = Some false).
Proof.
  intros Hc. unfold IsCompleted.
  rewrite andb_true_iff, !Z.eqb_eq.
  assert (Hq : n_elements s = 0 <-> q s = []).
  { unfold coherent in Hc. rewrite Hc. split; intros H.
    - destruct (q s) as [|x l]; [reflexivity|].
      rewrite size_cons in H. pose proof (size_nonneg l). lia.
    - rewrite H. reflexivity. }
  split.
  - intros [Hn Hp]. apply Hq in Hn.
    rewrite (Pop_empty_done d s Hc Hn Hp). reflexivity.
  - intros H. destruct (q s) as [|front rest] eqn:E.
    + destruct (Z.eq_dec (n_producers s) 0) as [Hp|Hp].
      * split; [apply Hq; reflexivity | exact Hp].
      * rewrite (Pop_empty_waits d s E Hp) in H. discriminate H.
    + exfalso. revert H. unfold Pop, pop_ready. rewrite E. cbn [negb orb].
      destruct (n_elements s =? 0) eqn:En.
      * apply Z.eqb_eq in En. apply Hq in En. discriminate En.
      * discriminate.
Qed.

(** X2: [Restart] resets the three scalar members and leaves the queued
    elements in place; the counter agrees with the container afterwards
    exactly when the queue held no element. *)
Theorem Restart_keeps_q n s :
  q (Restart n s) = q s
  /\ n_elements (Restart n s) = 0
  /\ n_producers (Restart n s) = n
  /\ is_completed (Restart n s) = false
  /\ (coherent (Restart n s) <-> q s = []).
Proof.
  repeat (split; [reflexivity|]).
  unfold coherent. cbn [Restart q n_elements].
  split; intros H.
  - destruct (q s) as [|x l]; [reflexivity|].
    rewrite size_cons in H. pose proof (size_nonneg l). lia.
  - rewrite H. reflexivity.
Qed.

(** X3: [PushRange] leaves the queue in the state that [Push] of each
    element of the vector, in order, would leave it in. *)
Theorem PushRange_is_repeated_Push xs s :
  is_uint32 (n_elements s) -> PushRange xs s = push_all xs s.
Proof.
  unfold push_all. revert s.
  induction xs as [|x xs IH]; intros s Hu; cbn [fold_left].
  - unfold PushRange. cbn [fold_left]. rewrite size_nil, Z.add_0_r.
    rewrite (to_uint32_small _ Hu). destruct s; reflexivity.
  - rewrite <- IH by (rewrite Push_n_elements; apply to_uint32_range).
    unfold PushRange. cbn [fold_left]. rewrite Push_q, Push_n_elements.
    cbn [is_completed n_producers Push].
    rewrite to_uint32_add_l, size_cons. f_equal. f_equal. lia.
Qed.

End QueueFacts.

(** *** Concrete states *)

Section QueueExamples.

Import Queue.

(** [Pop] on a queue of integers that holds the single element 7. *)
Lemma Pop_one_int :
  is_uint32 (n_elements one_int) /\ coherent one_int
  /\ (pop_flag (Pop 0 one_int) = Some false <->
      q one_int = [] /\ n_producers one_int = 0)
  /\ (pop_flag (Pop 0 one_int) = Some false ->
      Pop 0 one_int = PopReturns false 0 one_int)
  /\ (forall front rest, q one_int = front :: rest ->
        Pop 0 one_int = PopReturns true front
                    (mkQueue rest (is_completed one_int) (n_producers one_int)
                       (n_elements one_int - 1)))
  /\ (q one_int = [] -> n_producers one_int <> 0 -> Pop 0 one_int = PopWaits).
Proof.
  assert (Hu : is_uint32 (n_elements one_int)).
  { unfold is_uint32. change (n_elements one_int) with 1. lia. }
  assert (Hc : coherent one_int) by reflexivity.
  split; [exact Hu|]. split; [exact Hc|].
  exact (Pop_false_iff_drained_and_done 0 one_int Hu Hc).
Defined.

(** A new queue for one producer, [Push 7], then [Restart 1]: the element is
    still queued and the producer has not called [MarkCompleted], yet [Pop]
    returns [false], hands nothing out and removes nothing. *)
Lemma Pop_false_with_element_queued :
  restarted_ints = Restart 1 (Push 7 (CRegisteringQueue_ctor 1 raw_ints))
  /\ q restarted_ints = [7]
  /\ n_producers restarted_ints = 1
  /\ n_elements restarted_ints = 0
  /\ Pop 0 restarted_ints = PopReturns false 0 restarted_ints
  /\ pop_flag (Pop 0 restarted_ints) = Some false.
Proof.
  split; [reflexivity|].
  assert (Hq : q restarted_ints = [7]) by reflexivity.
  assert (Hn : n_elements restarted_ints = 0) by reflexivity.
  assert (HP : Pop 0 restarted_ints = PopReturns false 0 restarted_ints).
  { unfold Pop, pop_ready. rewrite Hq, Hn. reflexivity. }
  split; [exact Hq|]. split; [reflexivity|]. split; [exact Hn|].
  split; [exact HP|]. rewrite HP. reflexivity.
Qed.

(** The state after [Push 7] on a new queue of integers is reachable, and
    its counter is the length of its container. *)
Lemma n_elements_counts_q_one_int :
  reachable one_int
  /\ n_elements one_int = Z.of_nat (length (q one_int)) mod 2 ^ 32
  /\ (Z.of_nat (length (q one_int)) < 2 ^ 32 ->
      n_elements one_int = Z.of_nat (length (q one_int))).
Proof.
  assert (Hr : reachable one_int).
  { unfold one_int. apply reach_Push, reach_ctor. }
  split; [exact Hr|].
  exact (n_elements_counts_q_mod one_int Hr).
Defined.

(** A [PushRange] of [2^32] elements on a new queue: the state is reachable,
    its counter has wrapped to 0 and its container holds [2^32] elements. *)
Lemma PushRange_wraps_n_elements :
  reachable (PushRange huge_range (CRegisteringQueue_ctor 1 raw_units))
  /\ n_elements (PushRange huge_range (CRegisteringQueue_ctor 1 raw_units)) = 0
  /\ Z.of_nat (length (q (PushRange huge_range (CRegisteringQueue_ctor 1 raw_units))))
     = 2 ^ 32
  /\ n_elements (PushRange huge_range (CRegisteringQueue_ctor 1 raw_units)) <>
     Z.of_nat (length (q (PushRange huge_range (CRegisteringQueue_ctor 1 raw_units)))).
Proof.
  apply PushRange_full_turn.
  unfold huge_range. rewrite size_repeat. apply Z2Nat.id.
  apply Z.pow_nonneg. discriminate.
Qed.

(** [IsCompleted] and [Pop] on an empty queue whose producers are done. *)
Lemma IsCompleted_drained_ints :
  coherent drained_ints
  /\ (IsCompleted drained_ints = true <->
      pop_flag (Pop 0 drained_ints) = Some false).
Proof.
  assert (Hc : coherent drained_ints) by reflexivity.
  split; [exact Hc|].
  exact (IsCompleted_iff_Pop_false 0 drained_ints Hc).
Defined.

(** [PushRange] and three calls of [Push] on the one-element queue. *)
Lemma PushRange_one_int :
  is_uint32 (n_elements one_int)
  /\ PushRange [1; 2; 3] one_int = push_all [1; 2; 3] one_int.
Proof.
  assert (Hu : is_uint32 (n_elements one_int)).
  { unfold is_uint32. change (n_elements one_int) with 1. lia. }
  split; [exact Hu|].
  exact (PushRange_is_repeated_Push [1; 2; 3] one_int Hu).
Defined.

(** Evaluations on small queues of integers. *)
Example Pop_one_int_value :
  Pop 0 one_int = PopReturns true 7 (mkQueue [] false 1 0).
Proof. reflexivity. Qed.

Example Pop_new_queue_waits :
  Pop 0 (CRegisteringQueue_ctor 1 raw_ints) = PopWaits.
Proof. reflexivity. Qed.

Example MarkCompleted_last_producer :
  MarkCompleted (CRegisteringQueue_ctor 1 raw_ints) = Some drained_ints.
Proof. reflexivity. Qed.

Example Pop_drained_returns_false :
  Pop 0 drained_ints = PopReturns false 0 drained_ints.
Proof. reflexivity. Qed.

Example Push_then_Pop_in_order :
  fst (pop_many 3 0 (push_all [1; 2; 3] (CRegisteringQueue_ctor 1 raw_ints))) =
  [(true, 1); (true, 2); (true, 3)].
Proof. reflexivity. Qed.

Example Pop_after_Restart_on_one_int :
  q (Restart 1 one_int) = [7]
  /\ Pop 0 (Restart 1 one_int) = PopReturns false 0 (Restart 1 one_int).
Proof. split; reflexivity. Qed.

End QueueExamples.

(** ** Constants of CCompressedFile *)

Section CompressedFileFacts.

Import CompressedFile.

(** C8: the flush thresholds are exactly 8 MiB for ordinary field streams,
    256 MiB for the genotype stream and 8 MiB for database streams; the
    shifts that compute them stay inside [int], and the values fit the
    [uint32_t] members. *)
Theorem max_buffer_sizes :
  max_buffer_size = 8 * 2 ^ 20
  /\ max_buffer_gt_size = 256 * 2 ^ 20
  /\ max_buffer_db_size = 8 * 2 ^ 20
  /\ (max_buffer_size = 8 * MiB /\ max_buffer_gt_size = 256 * MiB /\
      max_buffer_db_size = 8 * MiB)
  /\ (shl_int 8 20 <= INT_MAX /\ shl_int 256 20 <= INT_MAX)
  /\ (is_uint32 max_buffer_size /\ is_uint32 max_buffer_gt_size /\
      is_uint32 max_buffer_db_size).
Proof.
  assert (H8 : max_buffer_size = 8 * 2 ^ 20) by reflexivity.
  assert (H256 : max_buffer_gt_size = 256 * 2 ^ 20) by reflexivity.
  assert (Hdb : max_buffer_db_size = 8 * 2 ^ 20) by reflexivity.
  split; [exact H8|]. split; [exact H256|]. split; [exact Hdb|].
  split; [unfold MiB; auto|].
  split.
  - split; vm_compute; discriminate.
  - rewrite H8, H256, Hdb. unfold is_uint32. lia.
Qed.

Lemma pp_compress_flag_pow : pp_compress_flag = 2 ^ 30.
Proof. reflexivity. Qed.

Lemma below_flag_bit_clear s : 0 <= s < 2 ^ 30 -> Z.testbit s 30 = false.
Proof.
  intros Hs. rewrite <- (Z.mod_small s (2 ^ 30)) by exact Hs.
  apply Z.mod_pow2_bits_high. lia.
Qed.

Lemma below_flag_land s : 0 <= s < 2 ^ 30 -> Z.land s (2 ^ 30) = 0.
Proof.
  intros Hs. apply Z.bits_inj'. intros i Hi.
  rewrite Z.land_spec, Z.bits_0, Z.pow2_bits_eqb by lia.
  destruct (Z.eqb_spec 30 i) as [<-|Hne].
  - rewrite (below_flag_bit_clear s Hs). reflexivity.
  - apply andb_false_r.
Qed.

Lemma below_flag_lor s : 0 <= s < 2 ^ 30 -> Z.lor s (2 ^ 30) = s + 2 ^ 30.
Proof.
  intros Hs. pose proof (Z.add_lor_land s (2 ^ 30)) as H.
  rewrite (below_flag_land s Hs) in H. lia.
Qed.

(** C9: [pp_compress_flag] is [1 << 30 = 2^30], exactly 1 GiB: a single bit,
    bit 30, of a 32-bit size word.  A size below 1 GiB leaves that bit clear,
    so the flagged word still fits 32 bits, shows the flag, and gives the
    size back when the flag is masked out; 1 GiB itself is the first size
    that has the bit set on its own, and flagged it reads as size 0. *)
Theorem pp_compress_flag_is_bit_30 :
  pp_compress_flag = 2 ^ 30
  /\ pp_compress_flag = Z.shiftl 1 30
  /\ pp_compress_flag = GiB
  /\ pp_compress_flag = 1024 * 1024 * 1024
  /\ (forall i, 0 <= i -> Z.testbit pp_compress_flag i = (i =? 30))
  /\ (forall s, 0 <= s < GiB ->
        Z.testbit s 30 = false
        /\ is_uint32 (Z.lor s pp_compress_flag)
        /\ Z.testbit (Z.lor s pp_compress_flag) 30 = true
        /\ Z.land (Z.lor s pp_compress_flag) (pp_compress_flag - 1) = s)
  /\ Z.testbit GiB 30 = true
  /\ Z.land (Z.lor GiB pp_compress_flag) (pp_compress_flag - 1) = 0.
Proof.
  rewrite pp_compress_flag_pow. unfold GiB.
  split; [reflexivity|]. split; [reflexivity|]. split; [reflexivity|].
  split; [reflexivity|].
  split.
  { intros i Hi. rewrite Z.pow2_bits_eqb by lia. apply Z.eqb_sym. }
  split; [|split; reflexivity].
  intros s Hs.
  split; [apply below_flag_bit_clear, Hs|].
  split.
  { rewrite (below_flag_lor s Hs). unfold is_uint32. lia. }
  split.
  { rewrite Z.lor_spec, Z.pow2_bits_eqb by lia. apply orb_true_r. }
  rewrite (below_flag_lor s Hs).
  change (2 ^ 30 - 1) with (Z.ones 30).
  rewrite Z.land_ones by lia.
  rewrite <- (Z.mul_1_l (2 ^ 30)) at 1.
  rewrite Z.mod_add by lia. apply Z.mod_small. exact Hs.
Qed.

(** The type flags are the tags 1 to 6 moved to bit 60. *)
Lemma context_type_flags_values :
  context_type_flags = map (fun k => k * 2 ^ 60) [1; 2; 3; 4; 5; 6].
Proof. reflexivity. Qed.

Lemma tag_bits_in_top_nibble k i :
  0 <= k < 16 -> Z.testbit (k * 2 ^ 60) i = true -> 60 <= i <= 63.
Proof.
  intros Hk Hb.
  destruct (Z.lt_ge_cases i 0) as [Hneg|Hnn].
  { rewrite Z.testbit_neg_r in Hb by exact Hneg. discriminate. }
  destruct (Z.lt_ge_cases i 60) as [Hlo|Hhi].
  { rewrite Z.mul_pow2_bits_low in Hb by lia. discriminate. }
  split; [exact Hhi|].
  rewrite Z.mul_pow2_bits in Hb by lia.
  destruct (Z.lt_ge_cases 63 i) as [Hbig|Hok]; [|exact Hok].
  rewrite <- (Z.mod_small k (2 ^ 4)) in Hb by (change (2 ^ 4) with 16; lia).
  rewrite Z.mod_pow2_bits_high in Hb by lia. discriminate.
Qed.

(** C10: the six context type flags (symbol, prefix, suffix and the three
    large-value bands) are pairwise distinct 64-bit constants, none of them
    zero, and every bit set in any of them is one of the bits 60 to 63: the
    low 60 bits are clear and the top nibble holds the tags 1 to 6. *)
Theorem context_type_flags_top_nibble :
  NoDup context_type_flags
  /\ length context_type_flags = 6%nat
  /\ Forall (fun f => is_uint64 f /\ f <> 0 /\ Z.land f (Z.ones 60) = 0)
       context_type_flags
  /\ map (fun f => Z.shiftr f 60) context_type_flags = [1; 2; 3; 4; 5; 6]
  /\ (forall f i, In f context_type_flags -> Z.testbit f i = true -> 60 <= i <= 63).
Proof.
  split.
  { rewrite context_type_flags_values. cbn [map].
    repeat (apply NoDup_cons; [cbn [In]; intros H; repeat (destruct H as [H|H]; try discriminate H); exact H|]).
    apply NoDup_nil. }
  split; [reflexivity|].
  split.
  { unfold context_type_flags.
    repeat (apply Forall_cons;
            [split; [unfold is_uint64; split;
                       [vm_compute; discriminate | vm_compute; reflexivity]
                    | split; [vm_compute; discriminate | reflexivity]]|]).
    apply Forall_nil. }
  split; [reflexivity|].
  intros f i Hin. rewrite context_type_flags_values in Hin.
  apply in_map_iff in Hin. destruct Hin as (k & <- & Hk).
  apply tag_bits_in_top_nibble.
  cbn [In] in Hk. lia.
Qed.

End CompressedFileFacts.

(** * Further properties *)

(** ** CParams: the blob and the object *)

Section ParamsBlob.

Import Params.

(** X4: [load_params] accepts what [store_params] produced exactly when the
    vector handed to [store_params] was empty: [store_params] appends, and
    [load_params] wants the five bytes alone. *)
Theorem load_accepts_store_iff_empty (p q : CParams) (v : list Z) :
  fst (load_params q (store_params p v)) = true <-> v = [].
Proof.
  split.
  - intros H. apply load_params_accepts in H. destruct H as [Hlen _].
    rewrite store_params_app, length_app in Hlen. cbn [length] in Hlen.
    destruct v as [|a v]; [reflexivity | cbn [length] in Hlen; lia].
  - intros ->. rewrite load_store. reflexivity.
Qed.

(** X5: a vector of bytes that [load_params] accepts is given back by
    [store_params] on the loaded object, and the loaded [neglect_limit] is
    below 256. *)
Theorem store_after_load (q : CParams) (v : list Z) :
  Forall is_uint8 v ->
  fst (load_params q v) = true ->
  store_params (snd (load_params q v)) [] = v
  /\ is_uint8 (neglect_limit (snd (load_params q v))).
Proof.
  intros Hb Hok.
  pose proof Hok as Hwf. apply load_params_accepts in Hwf.
  destruct Hwf as [Hlen Hmagic].
  destruct v as [|a [|b [|c [|d [|e [|f v]]]]]]; try discriminate Hlen.
  cbn [firstn] in Hmagic. injection Hmagic as -> -> -> ->.
  assert (He : is_uint8 e).
  { do 4 (apply Forall_inv_tail in Hb). apply Forall_inv in Hb. exact Hb. }
  destruct (load_params_result q
              [char_code "G"; char_code "T"; char_code "S"; char_code "1"; e])
    as [H|H]; rewrite H in *; cbn [fst snd] in *; [discriminate Hok|].
  change (at_ [char_code "G"; char_code "T"; char_code "S"; char_code "1"; e] 4)
    with e.
  split; [|exact He].
  rewrite store_params_app. cbn [neglect_limit set_neglect_limit app].
  rewrite (to_uint8_small e He). reflexivity.
Qed.

(** X6: two parameter objects give the same blob exactly when their
    [neglect_limit]s agree modulo 256; no other member reaches the blob. *)
Theorem store_params_same_blob (p p' : CParams) (v : list Z) :
  store_params p v = store_params p' v
  <-> neglect_limit p mod 256 = neglect_limit p' mod 256.
Proof.
  rewrite !store_params_app. unfold to_uint8. change (2 ^ 8) with 256.
  split.
  - intros H. apply app_inv_head in H. injection H as H. exact H.
  - intros H. rewrite H. reflexivity.
Qed.

(** A blob with [neglect_limit] 200, loaded and stored again. *)
Lemma store_after_load_200 :
  Forall is_uint8 [71; 84; 83; 49; 200]
  /\ fst (load_params default_params [71; 84; 83; 49; 200]) = true
  /\ store_params (snd (load_params default_params [71; 84; 83; 49; 200])) []
     = [71; 84; 83; 49; 200]
  /\ is_uint8 (neglect_limit
                 (snd (load_params default_params [71; 84; 83; 49; 200]))).
Proof.
  assert (Hb : Forall is_uint8 [71; 84; 83; 49; 200]).
  { repeat (apply Forall_cons; [unfold is_uint8; lia|]). apply Forall_nil. }
  assert (Hok : fst (load_params default_params [71; 84; 83; 49; 200]) = true)
    by reflexivity.
  split; [exact Hb|]. split; [exact Hok|].
  exact (store_after_load default_params [71; 84; 83; 49; 200] Hb Hok).
Defined.

End ParamsBlob.

(** ** CRegisteringQueue: observers, composition and termination *)

Section QueueMore.

Import Queue.

Context {T : Type}.

Implicit Types (s : CRegisteringQueue T) (xs : list T) (d x : T).

Lemma size_zero_nil {A} (l : list A) : size l = 0 <-> l = [].
Proof.
  split; intros H.
  - destruct l as [|a l]; [reflexivity|].
    rewrite size_cons in H. pose proof (size_nonneg l). lia.
  - rewrite H. reflexivity.
Qed.

Lemma coherent_Push x s :
  is_uint32 (n_elements s) -> coherent s -> n_elements s + 1 < 2 ^ 32 ->
  is_uint32 (n_elements (Push x s)) /\ coherent (Push x s)
  /\ n_elements (Push x s) = n_elements s + 1.
Proof.
  unfold coherent, is_uint32. intros Hu Hc Hlt.
  rewrite Push_n_elements, Push_q, size_app. change (size [x]) with 1.
  rewrite to_uint32_small by (unfold is_uint32; lia). lia.
Qed.

(** X7: no method ever sets the member [is_completed]: it is [false] in
    every state the constructor, [Push], [PushRange], [Pop] and
    [MarkCompleted] can produce. *)
Theorem is_completed_stays_false s : reachable s -> is_completed s = false.
Proof.
  induction 1 as [n raw | x s _ IH | xs s _ IH | d s ret d' s' _ IH HP | s s' _ IH HM].
  - reflexivity.
  - exact IH.
  - exact IH.
  - destruct (Pop_cases d s)
      as [(E & _)|[(E & _)|[(E & _)|(front & rest & _ & _ & E)]]];
      rewrite E in HP; try discriminate HP;
      injection HP as _ _ <-; exact IH.
  - unfold MarkCompleted in HM.
    destruct (n_producers s =? INT_MIN); [discriminate HM|].
    injection HM as <-. exact IH.
Qed.

(** X8: in every such state whose container holds fewer than [2^32]
    elements, the observers report the container: [GetSize] is the number
    of queued elements, [IsEmpty] holds exactly when nothing is queued, and
    [IsCompleted] exactly when nothing is queued and [n_producers] is 0. *)
Theorem observers_report_q s :
  reachable s -> Z.of_nat (length (q s)) < 2 ^ 32 ->
  GetSize s = Z.of_nat (length (q s))
  /\ (IsEmpty s = true <-> q s = [])
  /\ (IsCompleted s = true <-> q s = [] /\ n_producers s = 0).
Proof.
  intros Hr Hlt.
  destruct (coherent_mod_below s (reachable_coherent_mod s Hr) Hlt) as [Hc _].
  unfold coherent in Hc. unfold GetSize, IsEmpty, IsCompleted.
  rewrite andb_true_iff, !Z.eqb_eq, Hc.
  split; [reflexivity|].
  split; [apply size_zero_nil|].
  rewrite size_zero_nil. reflexivity.
Qed.

Lemma mark_many_counts k : forall s,
  INT_MIN <= n_producers s - Z.of_nat k ->
  mark_many k s =
  Some (mkQueue (q s) (is_completed s) (n_producers s - Z.of_nat k) (n_elements s)).
Proof.
  induction k as [|k IH]; intros s Hk; cbn [mark_many].
  - destruct s as [qq ic np ne]. cbn [q is_completed n_producers n_elements].
    f_equal. f_equal. cbn. lia.
  - unfold MarkCompleted.
    destruct (n_producers s =? INT_MIN) eqn:E; [apply Z.eqb_eq in E; lia|].
    rewrite IH; cbn [q is_completed n_producers n_elements]; [|lia].
    f_equal. f_equal. lia.
Qed.

(** X9: on a new queue for [n] producers on which nothing was pushed, after
    [k] calls of [MarkCompleted] the member [n_producers] is [n - k]; a call
    of [Pop] then returns [false] if [k = n] and stays suspended otherwise,
    also when [MarkCompleted] was called more often than there are
    producers. *)
Theorem Pop_after_MarkCompleted n (raw : CRegisteringQueue T) k d :
  INT_MIN <= n - Z.of_nat k ->
  mark_many k (CRegisteringQueue_ctor n raw) =
    Some (mkQueue [] false (n - Z.of_nat k) 0)
  /\ (Z.of_nat k = n ->
      Pop d (mkQueue [] false (n - Z.of_nat k) 0) =
      PopReturns false d (mkQueue [] false (n - Z.of_nat k) 0))
  /\ (Z.of_nat k <> n ->
      Pop d (mkQueue [] false (n - Z.of_nat k) 0) = PopWaits).
Proof.
  intros Hk. split; [|split].
  - rewrite mark_many_counts by exact Hk. reflexivity.
  - intros E. apply Pop_empty_done; [reflexivity | reflexivity |].
    cbn [n_producers]. lia.
  - intros E. apply Pop_empty_waits; [reflexivity |].
    cbn [n_producers]. lia.
Qed.

(** X10: [Push] followed by [Pop], below the capacity of the counter: on an
    empty queue the pushed element comes straight back and the state is as
    before; on a non-empty queue [Pop] hands out the old front element, and
    the state is the one reached by popping first and pushing afterwards. *)
Theorem Pop_after_Push d x s :
  is_uint32 (n_elements s) -> coherent s -> n_elements s + 1 < 2 ^ 32 ->
  (q s = [] -> Pop d (Push x s) = PopReturns true x s)
  /\ (forall y r, q s = y :: r ->
        Pop d (Push x s) =
        PopReturns true y
          (Push x (mkQueue r (is_completed s) (n_producers s) (n_elements s - 1)))).
Proof.
  intros Hu Hc Hlt.
  destruct (coherent_Push x s Hu Hc Hlt) as (Hu' & Hc' & Hn').
  split.
  - intros Hq.
    rewrite (Pop_nonempty d (Push x s) x [] Hu' Hc')
      by (rewrite Push_q, Hq; reflexivity).
    rewrite Hn'. cbn [Push is_completed n_producers].
    unfold coherent in Hc. rewrite Hq, size_nil in Hc.
    destruct s as [qq ic np ne].
    cbn [q is_completed n_producers n_elements] in *. subst. reflexivity.
  - intros y r Hq.
    rewrite (Pop_nonempty d (Push x s) y (r ++ [x]) Hu' Hc')
      by (rewrite Push_q, Hq; reflexivity).
    rewrite Hn'. unfold Push, push_back.
    cbn [q is_completed n_producers n_elements].
    assert (1 <= n_elements s).
    { unfold coherent in Hc. rewrite Hc, Hq, size_cons.
      pose proof (size_nonneg r). lia. }
    rewrite to_uint32_small by (unfold is_uint32 in *; lia).
    f_equal. f_equal. lia.
Qed.

Lemma pop_many_drains_list (l : list T) : forall d s,
  q s = l -> is_uint32 (n_elements s) -> coherent s ->
  pop_many (length l) d s =
  (map (pair true) l, mkQueue [] (is_completed s) (n_producers s) 0).
Proof.
  induction l as [|y r IH]; intros d s Hq Hu Hc; cbn [length pop_many map].
  - unfold coherent in Hc. rewrite Hq, size_nil in Hc.
    destruct s as [qq ic np ne].
    cbn [q is_completed n_producers n_elements] in *. subst. reflexivity.
  - rewrite (Pop_nonempty d s y r Hu Hc Hq).
    assert (Hn : n_elements s = size r + 1).
    { unfold coherent in Hc. rewrite Hc, Hq, size_cons. reflexivity. }
    rewrite (IH y (mkQueue r (is_completed s) (n_producers s) (n_elements s - 1))).
    + reflexivity.
    + reflexivity.
    + cbn [n_elements]. pose proof (size_nonneg r). unfold is_uint32 in *. lia.
    + unfold coherent. cbn [n_elements q]. lia.
Qed.

(** X11: on a state whose counter agrees with its container, as many calls
    of [Pop] as there are queued elements all return [true], hand out the
    whole content of [q] from the front, and leave the queue empty with
    [n_elements = 0]; [n_producers] and [is_completed] are untouched. *)
Theorem pop_many_drains d s :
  is_uint32 (n_elements s) -> coherent s ->
  pop_many (length (q s)) d s =
    (map (pair true) (q s), mkQueue [] (is_completed s) (n_producers s) 0)
  /\ IsEmpty (snd (pop_many (length (q s)) d s)) = true.
Proof.
  intros Hu Hc.
  rewrite (pop_many_drains_list (q s) d s eq_refl Hu Hc).
  split; reflexivity.
Qed.

(** X12: while [n_elements] is 0 and [q] still holds elements (after
    [Restart] on a queue that was not drained, or after the counter wrapped),
    every call of [Pop] returns [false] at once, whatever [n_producers] is,
    and nothing is ever removed. *)
Theorem Pop_stuck_at_zero_counter k d s :
  n_elements s = 0 -> q s <> [] ->
  pop_many k d s = (repeat (false, d) k, s).
Proof.
  intros Hn Hq.
  assert (HP : Pop d s = PopReturns false d s).
  { unfold Pop, pop_ready. destruct (q s) as [|y r]; [contradiction|].
    cbn [negb orb]. rewrite Hn. reflexivity. }
  induction k as [|k IH]; cbn [pop_many repeat].
  - reflexivity.
  - rewrite HP, IH. reflexivity.
Qed.

End QueueMore.

Section QueueMoreExamples.

Import Queue.

Lemma is_completed_one_int :
  reachable one_int /\ is_completed one_int = false.
Proof.
  assert (Hr : reachable one_int).
  { unfold one_int. apply reach_Push, reach_ctor. }
  split; [exact Hr|].
  exact (is_completed_stays_false one_int Hr).
Defined.

Lemma observers_one_int :
  reachable one_int /\ Z.of_nat (length (q one_int)) < 2 ^ 32
  /\ GetSize one_int = Z.of_nat (length (q one_int))
  /\ (IsEmpty one_int = true <-> q one_int = [])
  /\ (IsCompleted one_int = true <-> q one_int = [] /\ n_producers one_int = 0).
Proof.
  assert (Hr : reachable one_int).
  { unfold one_int. apply reach_Push, reach_ctor. }
  assert (Hlt : Z.of_nat (length (q one_int)) < 2 ^ 32).
  { change (Z.of_nat (length (q one_int))) with 1. lia. }
  split; [exact Hr|]. split; [exact Hlt|].
  exact (observers_report_q one_int Hr Hlt).
Defined.

(** Two producers, both done. *)
Lemma Pop_after_two_MarkCompleted :
  INT_MIN <= 2 - Z.of_nat 2
  /\ mark_many 2 (CRegisteringQueue_ctor 2 raw_ints) =
       Some (mkQueue [] false (2 - Z.of_nat 2) 0)
  /\ (Z.of_nat 2 = 2 ->
      Pop 0 (mkQueue [] false (2 - Z.of_nat 2) 0) =
      PopReturns false 0 (mkQueue [] false (2 - Z.of_nat 2) 0))
  /\ (Z.of_nat 2 <> 2 ->
      Pop 0 (mkQueue [] false (2 - Z.of_nat 2) 0) = PopWaits).
Proof.
  assert (H : INT_MIN <= 2 - Z.of_nat 2) by (unfold INT_MIN; cbn; lia).
  split; [exact H|].
  exact (Pop_after_MarkCompleted 2 raw_ints 2%nat 0 H).
Defined.

Lemma Pop_after_Push_one_int :
  is_uint32 (n_elements one_int) /\ coherent one_int
  /\ n_elements one_int + 1 < 2 ^ 32
  /\ (q one_int = [] -> Pop 0 (Push 8 one_int) = PopReturns true 8 one_int)
  /\ (forall y r, q one_int = y :: r ->
        Pop 0 (Push 8 one_int) =
        PopReturns true y
          (Push 8 (mkQueue r (is_completed one_int) (n_producers one_int)
                     (n_elements one_int - 1)))).
Proof.
  assert (Hu : is_uint32 (n_elements one_int)).
  { unfold is_uint32. change (n_elements one_int) with 1. lia. }
  assert (Hc : coherent one_int) by reflexivity.
  assert (Hlt : n_elements one_int + 1 < 2 ^ 32).
  { change (n_elements one_int) with 1. lia. }
  split; [exact Hu|]. split; [exact Hc|]. split; [exact Hlt|].
  exact (Pop_after_Push 0 8 one_int Hu Hc Hlt).
Defined.

Lemma pop_many_drains_one_int :
  is_uint32 (n_elements one_int) /\ coherent one_int
  /\ pop_many (length (q one_int)) 0 one_int =
       (map (pair true) (q one_int),
        mkQueue [] (is_completed one_int) (n_producers one_int) 0)
  /\ IsEmpty (snd (pop_many (length (q one_int)) 0 one_int)) = true.
Proof.
  assert (Hu : is_uint32 (n_elements one_int)).
  { unfold is_uint32. change (n_elements one_int) with 1. lia. }
  assert (Hc : coherent one_int) by reflexivity.
  split; [exact Hu|]. split; [exact Hc|].
  exact (pop_many_drains 0 one_int Hu Hc).
Defined.

(** [Restart] on the one-element queue, then three calls of [Pop]. *)
Lemma Pop_stuck_after_Restart :
  n_elements restarted_ints = 0 /\ q restarted_ints <> []
  /\ pop_many 3 0 restarted_ints = (repeat (false, 0) 3, restarted_ints).
Proof.
  assert (Hn : n_elements restarted_ints = 0) by reflexivity.
  assert (Hq : q restarted_ints <> []) by discriminate.
  split; [exact Hn|]. split; [exact Hq|].
  exact (Pop_stuck_at_zero_counter 3 0 restarted_ints Hn Hq).
Defined.

End QueueMoreExamples.

(** ** CSemaphore *)

Section SemaphoreFacts.

Import Semaphore.

Implicit Types (s r : CSemaphore) (g num : Z).

Lemma in_int_true x : is_int x -> in_int x = true.
Proof.
  unfold is_int, in_int. intros [H1 H2].
  apply andb_true_iff. split; apply Z.leb_le; assumption.
Qed.

Lemma in_int_inv x : in_int x = true -> is_int x.
Proof.
  unfold is_int, in_int. intros H. apply andb_true_iff in H.
  destruct H as [H1 H2]. apply Z.leb_le in H1, H2. split; assumption.
Qed.

Lemma inc_many_same k : forall s,
  is_int (counter s) -> counter s + Z.of_nat k <= INT_MAX ->
  inc_many k (generation s) s =
  Some (mkSem (counter s + Z.of_nat k) (generation s)).
Proof.
  induction k as [|k IH]; intros s Hi Hk; cbn [inc_many].
  - destruct s as [c gen]. cbn [counter generation]. f_equal. f_equal. cbn. lia.
  - unfold Inc. rewrite Z.eqb_refl.
    rewrite in_int_true by (unfold is_int in *; lia).
    pose proof (IH (mkSem (counter s + 1) (generation s))) as H.
    cbn [counter generation] in H.
    rewrite H; [|unfold is_int in *; lia|lia].
    f_equal. f_equal. lia.
Qed.

Lemma dec_many_same k : forall s,
  is_int (counter s) -> INT_MIN <= counter s - Z.of_nat k ->
  dec_many k (generation s) s =
  Some (mkSem (counter s - Z.of_nat k) (generation s)).
Proof.
  induction k as [|k IH]; intros s Hi Hk; cbn [dec_many].
  - destruct s as [c gen]. cbn [counter generation]. f_equal. f_equal. cbn. lia.
  - unfold Dec. rewrite Z.eqb_refl.
    rewrite in_int_true by (unfold is_int in *; lia).
    pose proof (IH (mkSem (counter s - 1) (generation s))) as H.
    cbn [counter generation] in H.
    rewrite H; [|unfold is_int in *; lia|lia].
    f_equal. f_equal. lia.
Qed.

(** X13: [IncNum(num, g)] with [num >= 1] leaves the semaphore in the state
    that [num] calls of [Inc(g)] leave it in, in the current generation as
    well as when [g] starts a new one. *)
Theorem IncNum_is_repeated_Inc k g s r :
  is_int (counter s) -> (1 <= k)%nat -> Z.of_nat k <= INT_MAX ->
  IncNum (Z.of_nat k) g s = Some r ->
  inc_many k g s = Some r.
Proof.
  intros Hi Hk Hmax. unfold IncNum.
  destruct (generation s =? g) eqn:Eg.
  - apply Z.eqb_eq in Eg. subst g.
    destruct (in_int (counter s + Z.of_nat k)) eqn:Ein; [|discriminate].
    intros H. injection H as <-. apply in_int_inv in Ein.
    apply inc_many_same; [exact Hi | unfold is_int in Ein; lia].
  - intros H. injection H as <-.
    destruct k as [|k]; [lia|]. cbn [inc_many]. unfold Inc. rewrite Eg.
    pose proof (inc_many_same k (mkSem 1 g)) as H.
    cbn [counter generation] in H. rewrite H.
    + f_equal. f_equal. lia.
    + unfold is_int, INT_MIN, INT_MAX. lia.
    + lia.
Qed.

(** X14: on a semaphore at 0 in generation [g] (a new semaphore, for
    [g = 0]), after [n] calls of [Inc(g)] and [k <= n] calls of [Dec(g)] the
    counter is [n - k]; [WaitForZero(g)] returns when [k = n] and stays
    suspended while [k < n]. *)
Theorem WaitForZero_after_Inc_Dec n k g s :
  counter s = 0 -> generation s = g -> (k <= n)%nat -> Z.of_nat n <= INT_MAX ->
  inc_many n g s = Some (mkSem (Z.of_nat n) g)
  /\ dec_many k g (mkSem (Z.of_nat n) g) =
       Some (mkSem (Z.of_nat n - Z.of_nat k) g)
  /\ (k = n ->
      WaitForZero g (mkSem (Z.of_nat n - Z.of_nat k) g) =
      WaitReturns (mkSem (Z.of_nat n - Z.of_nat k) g))
  /\ ((k < n)%nat ->
      WaitForZero g (mkSem (Z.of_nat n - Z.of_nat k) g) = WaitSuspended).
Proof.
  intros Hc Hg Hk Hn. subst g.
  split; [|split; [|split]].
  - rewrite inc_many_same; rewrite Hc; [reflexivity | | lia].
    unfold is_int, INT_MIN, INT_MAX. lia.
  - pose proof (dec_many_same k (mkSem (Z.of_nat n) (generation s))) as H.
    cbn [counter generation] in H.
    apply H; unfold is_int, INT_MIN, INT_MAX in *; lia.
  - intros ->. unfold WaitForZero, zero_reached. cbn [counter generation].
    rewrite Z.sub_diag, !Z.eqb_refl. reflexivity.
  - intros Hlt. unfold WaitForZero, zero_reached. cbn [counter generation].
    destruct (Z.of_nat n - Z.of_nat k =? 0) eqn:E; [apply Z.eqb_eq in E; lia|].
    reflexivity.
Qed.

Lemma Dec_other_generation g s : generation s <> g -> Dec g s = Some s.
Proof. intros H. unfold Dec. apply Z.eqb_neq in H. rewrite H. reflexivity. Qed.

(** X15: calls that name a generation other than the current one: any
    number of [Dec] leaves the semaphore as it is, [WaitForZero] stays
    suspended even when the counter is 0, and [Inc] or [IncNum] drop the
    old count and start the named generation at 1 or at [num]. *)
Theorem other_generation_calls k g num s :
  generation s <> g ->
  dec_many k g s = Some s
  /\ WaitForZero g s = WaitSuspended
  /\ Inc g s = Some (mkSem 1 g)
  /\ IncNum num g s = Some (mkSem num g).
Proof.
  intros Hg. pose proof Hg as Hb. apply Z.eqb_neq in Hb.
  split; [|split; [|split]].
  - induction k as [|k IH]; cbn [dec_many]; [reflexivity|].
    rewrite (Dec_other_generation g s Hg). exact IH.
  - unfold WaitForZero, zero_reached. rewrite Hb, andb_false_r. reflexivity.
  - unfold Inc. rewrite Hb. reflexivity.
  - unfold IncNum. rewrite Hb. reflexivity.
Qed.

(** [IncNum(4)] on a semaphore counting 3. *)
Lemma IncNum_on_three :
  is_int (counter three) /\ (1 <= 4)%nat /\ Z.of_nat 4 <= INT_MAX
  /\ IncNum (Z.of_nat 4) 0 three = Some (mkSem 7 0)
  /\ inc_many 4 0 three = Some (mkSem 7 0).
Proof.
  assert (Hi : is_int (counter three)).
  { unfold is_int, INT_MIN, INT_MAX. cbn. lia. }
  assert (Hk : (1 <= 4)%nat) by lia.
  assert (Hm : Z.of_nat 4 <= INT_MAX) by (unfold INT_MAX; cbn; lia).
  assert (HI : IncNum (Z.of_nat 4) 0 three = Some (mkSem 7 0)) by reflexivity.
  split; [exact Hi|]. split; [exact Hk|]. split; [exact Hm|]. split; [exact HI|].
  exact (IncNum_is_repeated_Inc 4 0 three (mkSem 7 0) Hi Hk Hm HI).
Defined.

(** Three [Inc] and two [Dec] on a new semaphore. *)
Lemma WaitForZero_three_two :
  counter fresh = 0 /\ generation fresh = 0 /\ (2 <= 3)%nat
  /\ Z.of_nat 3 <= INT_MAX
  /\ inc_many 3 0 fresh = Some (mkSem (Z.of_nat 3) 0)
  /\ dec_many 2 0 (mkSem (Z.of_nat 3) 0) =
       Some (mkSem (Z.of_nat 3 - Z.of_nat 2) 0)
  /\ (2%nat = 3%nat ->
      WaitForZero 0 (mkSem (Z.of_nat 3 - Z.of_nat 2) 0) =
      WaitReturns (mkSem (Z.of_nat 3 - Z.of_nat 2) 0))
  /\ ((2 < 3)%nat ->
      WaitForZero 0 (mkSem (Z.of_nat 3 - Z.of_nat 2) 0) = WaitSuspended).
Proof.
  assert (Hc : counter fresh = 0) by reflexivity.
  assert (Hg : generation fresh = 0) by reflexivity.
  assert (Hk : (2 <= 3)%nat) by lia.
  assert (Hm : Z.of_nat 3 <= INT_MAX) by (unfold INT_MAX; cbn; lia).
  split; [exact Hc|]. split; [exact Hg|]. split; [exact Hk|]. split; [exact Hm|].
  exact (WaitForZero_after_Inc_Dec 3 2 0 fresh Hc Hg Hk Hm).
Defined.

(** Generation 1 named on a semaphore in generation 0. *)
Lemma other_generation_on_three :
  generation three <> 1
  /\ dec_many 5 1 three = Some three
  /\ WaitForZero 1 three = WaitSuspended
  /\ Inc 1 three = Some (mkSem 1 1)
  /\ IncNum 0 1 three = Some (mkSem 0 1).
Proof.
  assert (Hg : generation three <> 1) by discriminate.
  split; [exact Hg|].
  exact (other_generation_calls 5 1 0 three Hg).
Defined.

End SemaphoreFacts.

(** ** CCompressedFile: tagging contexts, database streams *)

Section CompressedFileMore.

Import CompressedFile.

Lemma payload_bit_high y i : 0 <= y < 2 ^ 60 -> 60 <= i -> Z.testbit y i = false.
Proof.
  intros Hy Hi. rewrite <- (Z.mod_small y (2 ^ 60)) by exact Hy.
  apply Z.mod_pow2_bits_high. lia.
Qed.

Lemma tag_lor_payload k y :
  0 <= y < 2 ^ 60 -> Z.lor (k * 2 ^ 60) y = k * 2 ^ 60 + y.
Proof.
  intros Hy.
  assert (Hland : Z.land (k * 2 ^ 60) y = 0).
  { apply Z.bits_inj'. intros i Hi. rewrite Z.land_spec, Z.bits_0.
    destruct (Z.lt_ge_cases i 60) as [Hlo|Hhi].
    - rewrite Z.mul_pow2_bits_low by lia. reflexivity.
    - rewrite (payload_bit_high y i Hy Hhi). apply andb_false_r. }
  pose proof (Z.add_lor_land (k * 2 ^ 60) y) as H. rewrite Hland in H. lia.
Qed.

Lemma tag_of_sum k y : 0 <= y < 2 ^ 60 -> Z.shiftr (k * 2 ^ 60 + y) 60 = k.
Proof.
  intros Hy. rewrite Z.shiftr_div_pow2 by lia.
  rewrite Z.div_add_l by lia. rewrite Z.div_small by exact Hy. lia.
Qed.

Lemma payload_of_sum k y :
  0 <= y < 2 ^ 60 -> Z.land (k * 2 ^ 60 + y) (Z.ones 60) = y.
Proof.
  intros Hy. rewrite Z.land_ones by lia.
  rewrite Z.add_comm, Z.mod_add by lia. apply Z.mod_small. exact Hy.
Qed.

Lemma flag_is_tag f :
  In f context_type_flags -> exists k, 1 <= k <= 6 /\ f = k * 2 ^ 60.
Proof.
  rewrite context_type_flags_values. intros Hin.
  apply in_map_iff in Hin. destruct Hin as (k & <- & Hk).
  exists k. split; [cbn [In] in Hk; lia | reflexivity].
Qed.

(** X16: a type flag or-ed onto a payload below [2^60] gives a 64-bit
    context from which both come back: the top nibble is the flag's, the
    low 60 bits are the payload; so two such contexts are equal only when
    their flags and their payloads are. *)
Theorem tagged_context_decodes f y :
  In f context_type_flags -> 0 <= y < 2 ^ 60 ->
  is_uint64 (Z.lor f y)
  /\ Z.shiftr (Z.lor f y) 60 = Z.shiftr f 60
  /\ Z.land (Z.lor f y) (Z.ones 60) = y
  /\ (forall f' y', In f' context_type_flags -> 0 <= y' < 2 ^ 60 ->
        Z.lor f y = Z.lor f' y' -> f = f' /\ y = y').
Proof.
  intros Hf Hy. destruct (flag_is_tag f Hf) as (k & Hk & ->).
  rewrite (tag_lor_payload k y Hy).
  split; [unfold is_uint64; lia|].
  split.
  { rewrite (tag_of_sum k y Hy).
    replace (k * 2 ^ 60) with (k * 2 ^ 60 + 0) by lia.
    rewrite tag_of_sum by lia. reflexivity. }
  split; [apply payload_of_sum, Hy|].
  intros f' y' Hf' Hy' E. destruct (flag_is_tag f' Hf') as (k' & Hk' & ->).
  rewrite (tag_lor_payload k' y' Hy') in E.
  assert (Ek : k = k').
  { rewrite <- (tag_of_sum k y Hy), <- (tag_of_sum k' y' Hy'), E. reflexivity. }
  subst k'. split; [reflexivity | lia].
Qed.

(** X17: the two context masks keep the low 16 and the low 20 bits, so a
    masked value is a payload below [2^60] that no type flag touches. *)
Theorem context_masks_are_payloads x f :
  In f context_type_flags ->
  0 <= Z.land x context_symbol_mask < 2 ^ 16
  /\ 0 <= Z.land x context_prefix_mask < 2 ^ 20
  /\ Z.land f context_symbol_mask = 0
  /\ Z.land f context_prefix_mask = 0
  /\ Z.land (Z.lor f (Z.land x context_prefix_mask)) context_prefix_mask =
     Z.land x context_prefix_mask
  /\ Z.land (Z.lor f (Z.land x context_symbol_mask)) context_symbol_mask =
     Z.land x context_symbol_mask.
Proof.
  intros Hf.
  change context_symbol_mask with (Z.ones 16).
  change context_prefix_mask with (Z.ones 20).
  rewrite !Z.land_ones by lia.
  assert (H16 : 0 <= x mod 2 ^ 16 < 2 ^ 16) by (apply Z.mod_pos_bound; lia).
  assert (H20 : 0 <= x mod 2 ^ 20 < 2 ^ 20) by (apply Z.mod_pos_bound; lia).
  destruct (flag_is_tag f Hf) as (k & Hk & ->).
  assert (Hm16 : (k * 2 ^ 60) mod 2 ^ 16 = 0).
  { replace (k * 2 ^ 60) with (k * 2 ^ 44 * 2 ^ 16) by lia. apply Z.mod_mul. lia. }
  assert (Hm20 : (k * 2 ^ 60) mod 2 ^ 20 = 0).
  { replace (k * 2 ^ 60) with (k * 2 ^ 40 * 2 ^ 20) by lia. apply Z.mod_mul. lia. }
  split; [exact H16|]. split; [exact H20|].
  split; [exact Hm16|]. split; [exact Hm20|].
  rewrite !tag_lor_payload by lia.
  split.
  - replace (k * 2 ^ 60 + x mod 2 ^ 20)
      with (x mod 2 ^ 20 + k * 2 ^ 40 * 2 ^ 20) by lia.
    rewrite Z.mod_add by lia. apply Z.mod_small. exact H20.
  - replace (k * 2 ^ 60 + x mod 2 ^ 16)
      with (x mod 2 ^ 16 + k * 2 ^ 44 * 2 ^ 16) by lia.
    rewrite Z.mod_add by lia. apply Z.mod_small. exact H16.
Qed.

(** The prefix flag on the payload 5. *)
Lemma tagged_prefix_5 :
  In context_prefix_flag context_type_flags /\ 0 <= 5 < 2 ^ 60
  /\ is_uint64 (Z.lor context_prefix_flag 5)
  /\ Z.shiftr (Z.lor context_prefix_flag 5) 60 = Z.shiftr context_prefix_flag 60
  /\ Z.land (Z.lor context_prefix_flag 5) (Z.ones 60) = 5
  /\ (forall f' y', In f' context_type_flags -> 0 <= y' < 2 ^ 60 ->
        Z.lor context_prefix_flag 5 = Z.lor f' y' ->
        context_prefix_flag = f' /\ 5 = y').
Proof.
  assert (Hf : In context_prefix_flag context_type_flags).
  { unfold context_type_flags. right. left. reflexivity. }
  assert (Hy : 0 <= 5 < 2 ^ 60) by lia.
  split; [exact Hf|]. split; [exact Hy|].
  exact (tagged_context_decodes context_prefix_flag 5 Hf Hy).
Defined.

(** The symbol flag and a value wider than both masks. *)
Lemma masked_under_symbol_flag :
  In context_symbol_flag context_type_flags
  /\ 0 <= Z.land 0x12345678 context_symbol_mask < 2 ^ 16
  /\ 0 <= Z.land 0x12345678 context_prefix_mask < 2 ^ 20
  /\ Z.land context_symbol_flag context_symbol_mask = 0
  /\ Z.land context_symbol_flag context_prefix_mask = 0
  /\ Z.land (Z.lor context_symbol_flag (Z.land 0x12345678 context_prefix_mask))
       context_prefix_mask = Z.land 0x12345678 context_prefix_mask
  /\ Z.land (Z.lor context_symbol_flag (Z.land 0x12345678 context_symbol_mask))
       context_symbol_mask = Z.land 0x12345678 context_symbol_mask.
Proof.
  assert (Hf : In context_symbol_flag context_type_flags).
  { unfold context_type_flags. left. reflexivity. }
  split; [exact Hf|].
  exact (context_masks_are_payloads 0x12345678 context_symbol_flag Hf).
Defined.

(** X18: every database field id is a valid index into both arrays of
    stream names ([no_db_fields] entries each), the ids are pairwise
    distinct, and the twelve stream names are pairwise distinct, so no two
    database streams share a name. *)
Theorem db_streams_distinct :
  length db_stream_name_size = Z.to_nat no_db_fields
  /\ length db_stream_name_data = Z.to_nat no_db_fields
  /\ Forall (fun i => 0 <= i < no_db_fields) db_field_ids
  /\ NoDup db_field_ids
  /\ NoDup (db_stream_name_size ++ db_stream_name_data)
  /\ (forall i j, In i db_field_ids -> In j db_field_ids ->
        nth (Z.to_nat i) db_stream_name_size EmptyString <>
        nth (Z.to_nat j) db_stream_name_data EmptyString).
Proof.
  split; [reflexivity|]. split; [reflexivity|].
  split.
  { unfold db_field_ids, no_db_fields.
    repeat (apply Forall_cons; [vm_compute; intuition congruence|]).
    apply Forall_nil. }
  split.
  { unfold db_field_ids.
    repeat (apply NoDup_cons;
            [cbn [In]; intros H;
             repeat (destruct H as [H|H]; try discriminate H); exact H|]).
    apply NoDup_nil. }
  split.
  { unfold db_stream_name_size, db_stream_name_data. cbn [app].
    repeat (apply NoDup_cons;
            [cbn [In]; intros H;
             repeat (destruct H as [H|H]; try discriminate H); exact H|]).
    apply NoDup_nil. }
  intros i j Hi Hj. unfold db_field_ids in Hi, Hj. cbn [In] in Hi, Hj.
  repeat (destruct Hi as [<-|Hi]); try contradiction;
    repeat (destruct Hj as [<-|Hj]); try contradiction;
    vm_compute; discriminate.
Qed.

End CompressedFileMore.
